(** * fix_compression.py: the compression normalizer for [.frag] models

    A shallow embedding of [fix_compression.py], the script that walks
    [VSR_IFC/public/models], looks at the first two bytes of every
    [*.frag] file and gzip-compresses in place the files that do not start
    with the gzip magic number.

    The script is a sequence of file-system and console effects with no
    exception handler, so it is modelled in a state-and-exception monad
    over a [world]: the directory listings [os.listdir] returns, the files
    [open] sees, the lines printed so far and the log of the files opened.
    The gzip library itself is not part of the script: it enters through
    the interface [GzipCodec], with the two facts about it the script
    relies on, and [StoredGzip] implements that interface with an RFC 1952
    writer that uses stored deflate blocks. *)

From Stdlib Require Import Strings.Byte Strings.Ascii.
From stdpp Require Import gmap strings list fin_maps.

Open Scope string_scope.
Open Scope list_scope.

(** ** Bytes and strings *)

Abbreviation bytes := (list byte).

#[global] Instance byte_eq_dec : EqDecision byte := Byte.byte_eq_dec.

(** [b'\x1f\x8b'] *)
Definition gzip_magic : bytes := [x1f; x8b].

(** The test the script makes on the header it read:
    [header == b'\x1f\x8b']. *)
Definition is_gzip_header (header : bytes) : bool :=
  bool_decide (header = gzip_magic).

(** [s.endswith(suffix)]: some tail of [s] is [suffix], compared
    character by character (case-sensitive). *)
Fixpoint endswith (s suffix : string) : bool :=
  String.eqb s suffix ||
  match s with
  | EmptyString => false
  | String _ s' => endswith s' suffix
  end.

(** [os.path.join(a, b)] of [posixpath]: an absolute [b] replaces [a];
    otherwise the two are joined by one ["/"] unless [a] is empty or
    already ends in one. *)
Definition path_join (a b : string) : string :=
  if String.prefix "/" b then b
  else if (String.eqb a "" || endswith a "/")%bool then a +:+ b
  else a +:+ "/" +:+ b.

(** ** The world the script runs in *)

(** What a write to a file does: it succeeds, the open is refused
    ([PermissionError]), or the device takes only the first [n] bytes and
    then fails ([OSError], disk full). *)
Inductive write_mode :=
| Writable
| WriteDenied
| WriteFailsAfter (n : nat).

Record file := File {
  content : bytes;
  readable : bool;
  wmode : write_mode
}.

Inductive node :=
| NFile (f : file)
| NDir.

(** The exceptions the file operations raise; all are [OSError]s
    ([IOError] is the same class). *)
Inductive exn :=
| FileNotFoundError (path : string)
| IsADirectoryError (path : string)
| PermissionError (path : string)
| NoSpaceError (path : string).

Inductive access :=
| OpenRead (path : string)
| OpenWrite (path : string).

Record world := World {
  dirs : gmap string (list string);   (* what [os.listdir] returns *)
  store : gmap string node;           (* what [open] finds at a path *)
  stdout : list string;               (* the lines printed, oldest first *)
  oplog : list access                 (* the files opened, oldest first *)
}.

Definition set_store (st : gmap string node) (w : world) : world :=
  World (dirs w) st (stdout w) (oplog w).

Definition log_access (a : access) (w : world) : world :=
  World (dirs w) (store w) (stdout w) (oplog w ++ [a]).

Definition put_line (s : string) (w : world) : world :=
  World (dirs w) (store w) (stdout w ++ [s]) (oplog w).

(** ** The monad: state, and exceptions nobody catches *)

Inductive result (A : Type) :=
| Ok (a : A)
| Raise (e : exn).
Arguments Ok {A} a.
Arguments Raise {A} e.

Definition IO (A : Type) : Type := world → result A * world.

#[global] Instance io_ret : MRet IO := λ A a w, (Ok a, w).

#[global] Instance io_bind : MBind IO := λ A B f m w,
  match m w with
  | (Ok a, w') => f a w'
  | (Raise e, w') => (Raise e, w')
  end.

Definition modify (f : world → world) : IO unit := λ w, (Ok tt, f w).

(** [for x in xs: body(x)], stopped by the first exception. *)
Fixpoint for_each {A} (body : A → IO unit) (xs : list A) : IO unit :=
  match xs with
  | [] => mret tt
  | x :: xs' => body x ;; for_each body xs'
  end.

(** ** The operations of the operating system *)

(** [print(s)] *)
Definition print (s : string) : IO unit := modify (put_line s).

(** [os.listdir(d)] *)
Definition listdir (d : string) : IO (list string) := λ w,
  match dirs w !! d with
  | Some names => (Ok names, w)
  | None => (Raise (FileNotFoundError d), w)
  end.

(** [with open(path, 'rb') as f: f.read(n)] ([n = None] is [f.read()]).
    A read of [n] bytes returns the bytes there are, at most [n]: a file
    shorter than [n] gives a shorter result, not an error. *)
Definition read_file (path : string) (n : option nat) : IO bytes := λ w,
  let w' := log_access (OpenRead path) w in
  match store w !! path with
  | None => (Raise (FileNotFoundError path), w')
  | Some NDir => (Raise (IsADirectoryError path), w')
  | Some (NFile f) =>
      if readable f then
        (Ok (match n with Some k => take k (content f) | None => content f end), w')
      else (Raise (PermissionError path), w')
  end.

(** The gzip library, as far as the script depends on it: the bytes
    [gzip.open(path, 'wb')] followed by [write(data)] and the close leave
    in the file, the decoder, and the two facts that relate them. The
    stream is a function of the path (gzip records the file name) and of
    the data; the header fields gzip takes from its environment are part
    of the codec. *)
Class GzipCodec := {
  gzip_compress : string → bytes → bytes;
  gzip_decompress : bytes → option bytes;
  gzip_compress_magic path data :
    take 2 (gzip_compress path data) = gzip_magic;
  gzip_decompress_compress path data :
    gzip_decompress (gzip_compress path data) = Some data
}.

Section Script.
Context `{codec : GzipCodec}.

(** [with gzip.open(path, 'wb') as f: f.write(data)]: the open truncates
    the file at [path], or creates it, and the gzip stream is written
    over it. *)
Definition gzip_write (path : string) (data : bytes) : IO unit := λ w,
  let w' := log_access (OpenWrite path) w in
  let out := gzip_compress path data in
  match store w !! path with
  | None =>
      (Ok tt, set_store (<[path := NFile (File out true Writable)]> (store w)) w')
  | Some NDir => (Raise (IsADirectoryError path), w')
  | Some (NFile f) =>
      match wmode f with
      | Writable =>
          (Ok tt, set_store (<[path := NFile (File out (readable f) Writable)]> (store w)) w')
      | WriteDenied => (Raise (PermissionError path), w')
      | WriteFailsAfter k =>
          (Raise (NoSpaceError path),
           set_store (<[path := NFile (File (take k out) (readable f) (WriteFailsAfter k))]> (store w)) w')
      end
  end.

(** ** The script *)

Definition models_dir : string := "VSR_IFC/public/models".

Definition startup_line : string := "Checking models in " +:+ models_dir +:+ "...".
Definition ok_line (filename : string) : string :=
  "[OK] " +:+ filename +:+ " is already gzipped.".
Definition fix_line (filename : string) : string :=
  "[FIX] " +:+ filename +:+ " is NOT gzipped. Compressing...".
Definition compressed_line (filename : string) : string :=
  "      Compressed " +:+ filename.
Definition done_line : string := "Done.".

Definition is_candidate (filename : string) : bool := endswith filename ".frag".

Definition filepath_of (filename : string) : string := path_join models_dir filename.

(** The body of the [for] loop. *)
Definition process_entry (filename : string) : IO unit :=
  if is_candidate filename then
    let filepath := filepath_of filename in
    header ← read_file filepath (Some 2);
    if is_gzip_header header then
      print (ok_line filename)
    else
      print (fix_line filename) ;;
      data ← read_file filepath None;
      gzip_write filepath data ;;
      print (compressed_line filename)
  else mret tt.

(** The whole script. *)
Definition main : IO unit :=
  print startup_line ;;
  names ← listdir models_dir;
  for_each process_entry names ;;
  print done_line.

(** ** What a run does to a file, stated on its own *)

(** The file's content starts with [0x1F 0x8B]. *)
Definition has_magic (c : bytes) : bool := is_gzip_header (take 2 c).

(** The candidate files: the entries the [endswith] filter retains. *)
Definition candidates (names : list string) : list string :=
  List.filter is_candidate names.

Definition write_ok (m : write_mode) : bool :=
  match m with Writable => true | _ => false end.

(** The loop body gets through a candidate without an exception exactly
    when it finds a readable regular file that is gzipped already or can
    be written. *)
Definition processable (entry : option node) : bool :=
  match entry with
  | Some (NFile f) => readable f && (has_magic (content f) || write_ok (wmode f))
  | _ => false
  end.

(** What the loop body leaves at [path]. *)
Definition normalized (path : string) (n : node) : node :=
  match n with
  | NFile f =>
      if has_magic (content f) then n
      else NFile (File (gzip_compress path (content f)) (readable f) Writable)
  | NDir => NDir
  end.

(** [path] is the path of one of the candidates among [names]. *)
Definition touched (names : list string) (path : string) : bool :=
  existsb (λ name, is_candidate name && bool_decide (filepath_of name = path)) names.

Definition access_path (a : access) : string :=
  match a with OpenRead p | OpenWrite p => p end.

Definition is_write (a : access) : bool :=
  match a with OpenWrite _ => true | OpenRead _ => false end.

(** The entry is a regular file that starts with [0x1F 0x8B]. *)
Definition entry_gzipped (entry : option node) : bool :=
  match entry with
  | Some (NFile f) => has_magic (content f)
  | _ => false
  end.

(** The files opened for one candidate. *)
Definition entry_accesses (path : string) (gzipped : bool) : list access :=
  if gzipped then [OpenRead path]
  else [OpenRead path; OpenRead path; OpenWrite path].

(** The lines printed for one candidate. *)
Definition report_lines (filename : string) (gzipped : bool) : list string :=
  if gzipped then [ok_line filename]
  else [fix_line filename; compressed_line filename].

(** What a step on [path] may change, whatever its outcome: nothing but
    the file at [path], and not even that one when it is gzipped; the
    log, extended by accesses to [path], with a write only when the file
    is not gzipped; and the console, extended. *)
Definition frame (path : string) (w w' : world) : Prop :=
  dirs w' = dirs w ∧
  (∀ q, q ≠ path → store w' !! q = store w !! q) ∧
  (entry_gzipped (store w !! path) = true → store w' !! path = store w !! path) ∧
  (∃ la, oplog w' = oplog w ++ la ∧
         Forall (λ a, access_path a = path ∧
                      (is_write a = true → entry_gzipped (store w !! path) = false)) la) ∧
  (∃ ls, stdout w' = stdout w ++ ls).

(** What a run over [names] may change, whatever its outcome. *)
Definition run_frame (names : list string) (w w' : world) : Prop :=
  dirs w' = dirs w ∧
  (∀ q, touched names q = false → store w' !! q = store w !! q) ∧
  (∀ q, entry_gzipped (store w !! q) = true → store w' !! q = store w !! q) ∧
  (∃ la, oplog w' = oplog w ++ la ∧
         Forall (λ a, touched names (access_path a) = true ∧
                      (is_write a = true →
                       entry_gzipped (store w !! access_path a) = false)) la) ∧
  (∃ ls, stdout w' = stdout w ++ ls).

(** The console and the log of a run, from the candidates in the order
    visited, each with the branch taken ([true]: already gzipped). *)
Definition report (entries : list (string * bool)) : list string :=
  flat_map (λ e, report_lines e.1 e.2) entries.

Definition accesses_of (entries : list (string * bool)) : list access :=
  flat_map (λ e, entry_accesses (filepath_of e.1) e.2) entries.

(** The names [os.listdir(models_dir)] returns. *)
Definition listing (w : world) : list string :=
  default [] (dirs w !! models_dir).

(** Two entries of a store are of the same kind: both absent, both
    directories, or both files with the same read permission. *)
Definition same_shape (a b : option node) : Prop :=
  match a, b with
  | None, None => True
  | Some NDir, Some NDir => True
  | Some (NFile f), Some (NFile g) => readable f = readable g
  | _, _ => False
  end.


End Script.

(** ** A gzip codec with stored blocks

    An implementation of the [GzipCodec] interface: the writer emits an
    RFC 1952 member (ten-byte header, deflate stream, CRC-32 and size
    trailer) whose deflate stream uses stored blocks only (RFC 1951,
    section 3.2.4); the reader accepts the members this writer produces
    and checks the trailer. *)
Module StoredGzip.

Definition byte_of_N (n : N) : byte :=
  default x00 (Byte.of_N (n mod 256)).

(** [k] bytes of [n], least significant first. *)
Fixpoint le_bytes (k : nat) (n : N) : bytes :=
  match k with
  | O => []
  | S k' => byte_of_N n :: le_bytes k' (n / 256)
  end.

Fixpoint le_value (bs : bytes) : N :=
  match bs with
  | [] => 0
  | b :: bs' => Byte.to_N b + 256 * le_value bs'
  end%N.

(** CRC-32 of RFC 1952, bit by bit (reflected polynomial [0xEDB88320]). *)
Definition crc_step (c : N) : N :=
  if N.testbit c 0 then N.lxor (N.shiftr c 1) 0xEDB88320 else N.shiftr c 1.

Definition crc_byte (c : N) (b : byte) : N :=
  Nat.iter 8 crc_step (N.lxor c (Byte.to_N b)).

Definition crc32 (data : bytes) : N :=
  N.lxor (fold_left crc_byte data 0xFFFFFFFF%N) 0xFFFFFFFF.

Definition max_stored : nat := N.to_nat 65535.

(** One stored block: BFINAL in bit 0 of the first byte, BTYPE = 00, then
    LEN, its one's complement NLEN, and the bytes. *)
Definition stored_block (final : bool) (chunk : bytes) : bytes :=
  (if final then x01 else x00)
  :: le_bytes 2 (N.of_nat (length chunk))
  ++ le_bytes 2 (65535 - N.of_nat (length chunk))
  ++ chunk.

Fixpoint stored_blocks (fuel : nat) (data : bytes) : bytes :=
  match fuel with
  | O => stored_block true data
  | S fuel' =>
      if (length data <=? max_stored)%nat then stored_block true data
      else stored_block false (take max_stored data)
           ++ stored_blocks fuel' (drop max_stored data)
  end.

Definition deflate_stored (data : bytes) : bytes :=
  stored_blocks (length data) data.

Definition trailer (data : bytes) : bytes :=
  le_bytes 4 (crc32 data) ++ le_bytes 4 (N.of_nat (length data) mod 2 ^ 32).

(** ID1 ID2 CM=8 FLG=0, MTIME=0, XFL=2, OS=255. *)
Definition header : bytes := [x1f; x8b; x08; x00; x00; x00; x00; x00; x02; xff].

Definition compress (path : string) (data : bytes) : bytes :=
  header ++ deflate_stored data ++ trailer data.

Fixpoint inflate_stored (fuel : nat) (input : bytes) : option (bytes * bytes) :=
  match fuel with
  | O => None
  | S fuel' =>
      match input with
      | hd :: l0 :: l1 :: n0 :: n1 :: rest =>
          let len := le_value [l0; l1] in
          if bool_decide (hd = x00 ∨ hd = x01)
             && (len + le_value [n0; n1] =? 65535)%N
             && (N.to_nat len <=? length rest)%nat
          then
            let chunk := take (N.to_nat len) rest in
            let rest' := drop (N.to_nat len) rest in
            if bool_decide (hd = x01) then Some (chunk, rest')
            else
              match inflate_stored fuel' rest' with
              | Some (data, rest'') => Some (chunk ++ data, rest'')
              | None => None
              end
          else None
      | _ => None
      end
  end.

Definition decompress (input : bytes) : option bytes :=
  if bool_decide (take 4 input = [x1f; x8b; x08; x00]) then
    let body := drop 10 input in
    match inflate_stored (length body) body with
    | Some (data, rest) =>
        if bool_decide (rest = trailer data) then Some data else None
    | None => None
    end
  else None.

End StoredGzip.

(** ** Concrete directories *)

Definition ascii_bytes (s : string) : bytes :=
  map Ascii.byte_of_ascii (String.list_ascii_of_string s).

Definition plain (s : string) : node := NFile (File (ascii_bytes s) true Writable).

(** A directory with a plain model, a model that is gzipped already (and
    read-only), a file of another kind and an empty model. *)
Definition demo_names : list string :=
  ["mesh.frag"; "packed.frag"; "readme.txt"; "empty.frag"].

Definition packed_file : file :=
  File (StoredGzip.compress "packed.frag" (ascii_bytes "hi")) true WriteDenied.

Definition demo_world : world :=
  World {[ models_dir := demo_names ]}
        (<[ filepath_of "mesh.frag" := plain "plain text data" ]>
         (<[ filepath_of "packed.frag" := NFile packed_file ]>
          (<[ filepath_of "readme.txt" := plain "notes" ]>
           (<[ filepath_of "empty.frag" := plain "" ]> ∅))))
        [] [].

(** A directory whose second model cannot be written. *)
Definition locked_world : world :=
  World {[ models_dir := ["a.frag"; "locked.frag"; "later.frag"] ]}
        (<[ filepath_of "a.frag" := plain "aaa" ]>
         (<[ filepath_of "locked.frag" := NFile (File (ascii_bytes "bbb") true WriteDenied) ]>
          (<[ filepath_of "later.frag" := plain "ccc" ]> ∅)))
        [] [].


(** A directory without models. *)
Definition notes_world : world :=
  World {[ models_dir := ["readme.txt"; "mesh.FRAG"] ]}
        (<[ filepath_of "readme.txt" := plain "notes" ]>
         (<[ filepath_of "mesh.FRAG" := plain "upper case" ]> ∅))
        [] [].

(** A directory whose only model sits on a device that takes four bytes. *)
Definition full_disk_file : file :=
  File (ascii_bytes "plain text data") true (WriteFailsAfter 4).

Definition full_disk_world : world :=
  World {[ models_dir := ["big.frag"] ]}
        {[ filepath_of "big.frag" := NFile full_disk_file ]}
        [] [].

(** * Theorems *)

(** ** The codec at work *)

Example crc32_check :
  StoredGzip.crc32 (ascii_bytes "123456789") = 0xCBF43926%N.
Proof. vm_compute. reflexivity. Qed.

Example compress_hello :
  StoredGzip.compress "a.frag" (ascii_bytes "hi") =
  [x1f; x8b; x08; x00; x00; x00; x00; x00; x02; xff;
   x01; x02; x00; xfd; xff; x68; x69;
   xac; x2a; x93; xd8; x02; x00; x00; x00].
Proof. vm_compute. reflexivity. Qed.

Example decompress_hello :
  StoredGzip.decompress (StoredGzip.compress "a.frag" (ascii_bytes "hi"))
  = Some (ascii_bytes "hi").
Proof. vm_compute. reflexivity. Qed.

(** ** The stored-block codec meets the interface *)

Section StoredGzipFacts.
Import StoredGzip.

Lemma to_N_byte_of_N (n : N) : Byte.to_N (byte_of_N n) = (n mod 256)%N.
Proof.
  unfold byte_of_N.
  destruct (Byte.of_N (n mod 256)) as [b|] eqn:E; simpl.
  - by apply Byte.to_of_N.
  - apply Byte.of_N_None_iff in E.
    pose proof (N.mod_upper_bound n 256). lia.
Qed.

Lemma length_le_bytes (k : nat) (n : N) : length (le_bytes k n) = k.
Proof. revert n. induction k as [|k IH]; intros n; simpl; [done | by rewrite IH]. Qed.

Lemma le_value_bytes (k : nat) (n : N) :
  (n < 256 ^ N.of_nat k)%N → le_value (le_bytes k n) = n.
Proof.
  revert n. induction k as [|k IH]; intros n Hn.
  - simpl in *. lia.
  - cbn [le_bytes le_value]. rewrite to_N_byte_of_N, IH.
    + pose proof (N.div_mod n 256). lia.
    + rewrite Nat2N.inj_succ, N.pow_succ_r' in Hn.
      apply N.Div0.div_lt_upper_bound. lia.
Qed.

Lemma inflate_stored_unfold (fuel : nat) (hd l0 l1 n0 n1 : byte) (rest : bytes) :
  inflate_stored (S fuel) (hd :: l0 :: l1 :: n0 :: n1 :: rest) =
  let len := le_value [l0; l1] in
  if bool_decide (hd = x00 ∨ hd = x01)
     && (len + le_value [n0; n1] =? 65535)%N
     && (N.to_nat len <=? length rest)%nat
  then
    if bool_decide (hd = x01)
    then Some (take (N.to_nat len) rest, drop (N.to_nat len) rest)
    else
      match inflate_stored fuel (drop (N.to_nat len) rest) with
      | Some (data, rest'') => Some (take (N.to_nat len) rest ++ data, rest'')
      | None => None
      end
  else None.
Proof. reflexivity. Qed.

Lemma inflate_stored_block (fuel : nat) (final : bool) (chunk rest : bytes) :
  (length chunk ≤ max_stored)%nat →
  inflate_stored (S fuel) (stored_block final chunk ++ rest) =
  if final then Some (chunk, rest)
  else match inflate_stored fuel rest with
       | Some (data, rest') => Some (chunk ++ data, rest')
       | None => None
       end.
Proof.
  intros Hlen. unfold max_stored in Hlen.
  set (n := N.of_nat (length chunk)).
  assert (Hn : (n ≤ 65535)%N) by lia.
  unfold stored_block. fold n.
  change (le_bytes 2 n) with [byte_of_N n; byte_of_N (n / 256)].
  change (le_bytes 2 (65535 - n)) with
    [byte_of_N (65535 - n); byte_of_N ((65535 - n) / 256)].
  cbn [app]. rewrite inflate_stored_unfold.
  change [byte_of_N n; byte_of_N (n / 256)] with (le_bytes 2 n).
  change [byte_of_N (65535 - n); byte_of_N ((65535 - n) / 256)]
    with (le_bytes 2 (65535 - n)).
  rewrite !le_value_bytes by (change (256 ^ N.of_nat 2)%N with 65536%N; lia).
  cbv zeta.
  replace (n + (65535 - n) =? 65535)%N with true by (symmetry; apply N.eqb_eq; lia).
  replace (N.to_nat n) with (length chunk) by lia.
  rewrite length_app.
  replace (length chunk <=? length chunk + length rest)%nat with true
    by (symmetry; apply Nat.leb_le; lia).
  rewrite take_app_length, drop_app_length.
  destruct final; reflexivity.
Qed.

Lemma inflate_stored_blocks (fuel fuel' : nat) (data rest : bytes) :
  (length data ≤ (S fuel) * max_stored)%nat →
  (fuel < fuel')%nat →
  inflate_stored fuel' (stored_blocks fuel data ++ rest) = Some (data, rest).
Proof.
  revert fuel' data. induction fuel as [|fuel IH]; intros fuel' data Hlen Hfuel.
  - destruct fuel' as [|fuel']; [lia|]. cbn [stored_blocks].
    rewrite inflate_stored_block by lia. done.
  - destruct fuel' as [|fuel']; [lia|]. cbn [stored_blocks].
    destruct (length data <=? max_stored)%nat eqn:E.
    + apply Nat.leb_le in E. by rewrite inflate_stored_block.
    + apply Nat.leb_gt in E. rewrite <- app_assoc.
      rewrite inflate_stored_block by (rewrite length_take; lia).
      rewrite IH; [by rewrite take_drop | rewrite length_drop; lia | lia].
Qed.

Lemma length_stored_block (final : bool) (chunk : bytes) :
  length (stored_block final chunk) = (5 + length chunk)%nat.
Proof.
  unfold stored_block. cbn [length].
  rewrite !length_app, !length_le_bytes. lia.
Qed.

Lemma length_stored_blocks (fuel : nat) (data : bytes) :
  (length data < length (stored_blocks fuel data))%nat.
Proof.
  revert data. induction fuel as [|fuel IH]; intros data; cbn [stored_blocks].
  - rewrite length_stored_block. lia.
  - destruct (length data <=? max_stored)%nat eqn:E.
    + rewrite length_stored_block. lia.
    + apply Nat.leb_gt in E.
      rewrite length_app, length_stored_block, length_take.
      specialize (IH (drop max_stored data)). rewrite length_drop in IH. lia.
Qed.

Lemma stored_compress_magic (path : string) (data : bytes) :
  take 2 (compress path data) = gzip_magic.
Proof. reflexivity. Qed.

Lemma stored_decompress_compress (path : string) (data : bytes) :
  decompress (compress path data) = Some data.
Proof.
  unfold decompress, compress.
  change (take 4 (header ++ deflate_stored data ++ trailer data))
    with [x1f; x8b; x08; x00].
  rewrite bool_decide_eq_true_2 by done.
  change (drop 10 (header ++ deflate_stored data ++ trailer data))
    with (deflate_stored data ++ trailer data).
  unfold deflate_stored.
  rewrite inflate_stored_blocks.
  - by rewrite bool_decide_eq_true_2.
  - unfold max_stored. lia.
  - rewrite length_app.
    pose proof (length_stored_blocks (length data) data). lia.
Qed.

End StoredGzipFacts.

Definition stored_codec : GzipCodec := {|
  gzip_compress := StoredGzip.compress;
  gzip_decompress := StoredGzip.decompress;
  gzip_compress_magic := stored_compress_magic;
  gzip_decompress_compress := stored_decompress_compress
|}.

(** ** Strings and paths *)

Lemma endswith_spec (s suffix : string) :
  endswith s suffix = true ↔ ∃ pre, s = pre +:+ suffix.
Proof.
  induction s as [|a s IH]; cbn [endswith].
  - rewrite orb_false_r, String.eqb_eq. split.
    + intros <-. by exists "".
    + intros [pre H]. destruct pre; simpl in H; [done | discriminate].
  - rewrite orb_true_iff, String.eqb_eq, IH. split.
    + intros [<- | [pre ->]]; [by exists "" | by exists (String a pre)].
    + intros [[|b pre] H]; [by left |].
      right. exists pre. by injection H.
Qed.

Lemma prefix_slash (s : string) :
  String.prefix "/" s = true → ∃ s', s = String "/"%char s'.
Proof.
  destruct s as [|a s]; cbn [String.prefix]; [discriminate |].
  destruct (Ascii.ascii_dec "/" a) as [<- | ?]; intros H; [eauto | discriminate].
Qed.

Section ScriptFacts.
Context `{codec : GzipCodec}.

Lemma filepath_of_unfold (filename : string) :
  filepath_of filename =
  if String.prefix "/" filename then filename
  else "VSR_IFC/public/models/" +:+ filename.
Proof. unfold filepath_of, path_join. by destruct (String.prefix "/" filename). Qed.

Lemma filepath_of_inj (a b : string) : filepath_of a = filepath_of b → a = b.
Proof.
  rewrite !filepath_of_unfold.
  destruct (String.prefix "/" a) eqn:Ea, (String.prefix "/" b) eqn:Eb; try done.
  - apply prefix_slash in Ea as [a' ->]. discriminate.
  - apply prefix_slash in Eb as [b' ->]. discriminate.
  - apply String.app_inj.
Qed.

(** *** The loop body, case by case *)

Lemma process_entry_skip (filename : string) (w : world) :
  is_candidate filename = false → process_entry filename w = (Ok tt, w).
Proof. intros H. unfold process_entry. by rewrite H. Qed.

Lemma process_entry_gzipped (filename : string) (w : world) (f : file) :
  is_candidate filename = true →
  store w !! filepath_of filename = Some (NFile f) →
  readable f = true →
  has_magic (content f) = true →
  process_entry filename w =
  (Ok tt, put_line (ok_line filename) (log_access (OpenRead (filepath_of filename)) w)).
Proof.
  intros Hc Hf Hr Hm. unfold process_entry. rewrite Hc.
  unfold mbind, io_bind, read_file. rewrite Hf, Hr.
  unfold has_magic in Hm. by rewrite Hm.
Qed.

Lemma process_entry_fix (filename : string) (w : world) (f : file) :
  is_candidate filename = true →
  store w !! filepath_of filename = Some (NFile f) →
  readable f = true →
  has_magic (content f) = false →
  wmode f = Writable →
  let p := filepath_of filename in
  process_entry filename w =
  (Ok tt,
   World (dirs w)
         (<[p := NFile (File (gzip_compress p (content f)) true Writable)]> (store w))
         (stdout w ++ [fix_line filename; compressed_line filename])
         (oplog w ++ [OpenRead p; OpenRead p; OpenWrite p])).
Proof.
  intros Hc Hf Hr Hm Hw p. subst p. unfold process_entry. rewrite Hc.
  unfold mbind, io_bind, read_file. rewrite Hf, Hr.
  unfold has_magic in Hm. rewrite Hm.
  cbn. rewrite Hf, Hr. unfold gzip_write. cbn. rewrite Hf, Hw, Hr. cbn.
  unfold print, modify, set_store, log_access, put_line. cbn.
  by rewrite <- !app_assoc.
Qed.

Ltac access_solve :=
  repeat (constructor;
          [split; [reflexivity | cbn [is_write]; intros; first [discriminate | assumption | reflexivity]] |]);
  constructor.

Ltac frame_solve :=
  unfold print, modify, set_store, log_access, put_line; cbn -[entry_gzipped];
  rewrite <- ?app_assoc;
  split; [reflexivity |];
  split; [intros q Hq; try done; by rewrite ?lookup_insert_ne |];
  split; [try done; intros; congruence |];
  split;
  [ first [ eexists; split; [reflexivity | access_solve]
          | exists []; split; [by rewrite app_nil_r | constructor] ]
  | first [ by exists []; rewrite app_nil_r | by eexists ] ].

Lemma process_entry_raise (filename : string) (w : world) :
  is_candidate filename = true →
  processable (store w !! filepath_of filename) = false →
  ∃ e w', process_entry filename w = (Raise e, w') ∧
          frame (filepath_of filename) w w'.
Proof.
  intros Hc Hp. unfold process_entry, frame. rewrite Hc.
  unfold mbind, io_bind, read_file.
  destruct (store w !! filepath_of filename) as [[f|]|] eqn:Hf;
    [| do 2 eexists; split; [reflexivity | frame_solve] ..].
  cbn in Hp. destruct (readable f) eqn:Hr;
    [| do 2 eexists; split; [reflexivity | frame_solve]].
  cbn in Hp. apply orb_false_elim in Hp as [Hm Hw].
  assert (Hg : entry_gzipped (Some (NFile f)) = false) by done.
  unfold has_magic in Hm. rewrite Hm. cbn -[entry_gzipped]. rewrite Hf, Hr.
  unfold gzip_write. cbn -[entry_gzipped]. rewrite Hf.
  destruct (wmode f); [done | ..];
    do 2 eexists; (split; [reflexivity | frame_solve]).
Qed.

Lemma has_magic_compress (path : string) (data : bytes) :
  has_magic (gzip_compress path data) = true.
Proof.
  unfold has_magic, is_gzip_header.
  by rewrite gzip_compress_magic, bool_decide_eq_true_2.
Qed.

Lemma has_magic_spec (c : bytes) : has_magic c = true ↔ take 2 c = gzip_magic.
Proof. unfold has_magic, is_gzip_header. by rewrite bool_decide_eq_true. Qed.

Lemma normalized_gzipped (path : string) (entry : option node) :
  entry_gzipped entry = true → normalized path <$> entry = entry.
Proof.
  destruct entry as [[f|]|]; cbn; try done. by intros ->.
Qed.

Lemma processable_normalized (path : string) (entry : option node) :
  processable entry = true →
  processable (normalized path <$> entry) = true ∧
  entry_gzipped (normalized path <$> entry) = true.
Proof.
  destruct entry as [[f|]|]; cbn; try done.
  destruct (has_magic (content f)) eqn:Hm; cbn; rewrite ?Hm, ?has_magic_compress.
  - by rewrite orb_true_l.
  - intros [-> _]%andb_true_iff. done.
Qed.

Lemma normalized_idem (path : string) (entry : option node) :
  normalized path <$> (normalized path <$> entry) = normalized path <$> entry.
Proof.
  destruct entry as [[f|]|]; cbn; try done.
  destruct (has_magic (content f)) eqn:Hm; cbn; by rewrite ?Hm, ?has_magic_compress.
Qed.

(** A candidate that is [processable] is processed without an exception,
    and this is what the step leaves behind. *)
Lemma process_entry_ok (filename : string) (w : world) :
  is_candidate filename = true →
  processable (store w !! filepath_of filename) = true →
  let p := filepath_of filename in
  let gz := entry_gzipped (store w !! p) in
  ∃ w', process_entry filename w = (Ok tt, w') ∧
        dirs w' = dirs w ∧
        (∀ q, store w' !! q =
              if bool_decide (p = q) then normalized p <$> store w !! p
              else store w !! q) ∧
        stdout w' = stdout w ++ report_lines filename gz ∧
        oplog w' = oplog w ++ entry_accesses p gz.
Proof.
  intros Hc Hp p gz. subst p gz.
  destruct (store w !! filepath_of filename) as [[f|]|] eqn:Hf; try done.
  cbn in Hp. apply andb_true_iff in Hp as [Hr Hp].
  destruct (has_magic (content f)) eqn:Hm.
  - eexists. split; [by eapply process_entry_gzipped |].
    cbn. rewrite Hm. repeat split. intros q. case_bool_decide; by subst.
  - cbn in Hp. destruct (wmode f) eqn:Hw; try done.
    eexists. split; [by eapply process_entry_fix |].
    cbn. rewrite Hm. repeat split. intros q.
    rewrite lookup_insert. rewrite Hr.
    case_decide; [by rewrite bool_decide_eq_true_2 | by rewrite bool_decide_eq_false_2].
Qed.

Lemma process_entry_frame (filename : string) (w : world) :
  is_candidate filename = true →
  frame (filepath_of filename) w (process_entry filename w).2.
Proof.
  intros Hc.
  destruct (processable (store w !! filepath_of filename)) eqn:Hp.
  - destruct (process_entry_ok filename w Hc Hp) as (w' & -> & Hd & Hs & Ho & Hl).
    cbn [snd]. split; [done |].
    split; [intros q Hq; by rewrite Hs, bool_decide_eq_false_2 |].
    split; [intros Hg; by rewrite Hs, bool_decide_eq_true_2, normalized_gzipped |].
    split; [| by eexists].
    eexists. split; [done |].
    destruct (entry_gzipped (store w !! filepath_of filename)); cbn; access_solve.
  - by destruct (process_entry_raise filename w Hc Hp) as (e & w' & -> & Hf).
Qed.

(** *** The loop *)

Lemma for_each_cons {A} (body : A → IO unit) (x : A) (xs : list A) (w : world) :
  for_each body (x :: xs) w =
  match body x w with
  | (Ok _, w1) => for_each body xs w1
  | (Raise e, w1) => (Raise e, w1)
  end.
Proof. reflexivity. Qed.

Lemma touched_cons (x : string) (names : list string) (q : string) :
  touched (x :: names) q =
  is_candidate x && bool_decide (filepath_of x = q) || touched names q.
Proof. reflexivity. Qed.

Lemma touched_spec (names : list string) (q : string) :
  touched names q = true ↔
  ∃ name, name ∈ names ∧ is_candidate name = true ∧ filepath_of name = q.
Proof.
  unfold touched. rewrite existsb_exists. split.
  - intros (name & Hin & [Hc Hq%bool_decide_eq_true]%andb_true_iff).
    exists name. by rewrite list_elem_of_In.
  - intros (name & Hin & Hc & Hq). exists name.
    rewrite <- list_elem_of_In, Hc. by rewrite bool_decide_eq_true_2.
Qed.

Lemma run_frame_refl (names : list string) (w : world) : run_frame names w w.
Proof.
  repeat split; try done.
  - exists []. by rewrite app_nil_r.
  - exists []. by rewrite app_nil_r.
Qed.

Lemma run_frame_skip (x : string) (names : list string) (w w' : world) :
  is_candidate x = false → run_frame names w w' → run_frame (x :: names) w w'.
Proof.
  intros Hc (Hd & Hs & Hg & (la & Hla & Hall) & Hout).
  split; [done |]. split; [| split; [done | split; [| done]]].
  - intros q. rewrite touched_cons, Hc. apply Hs.
  - exists la. split; [done |].
    eapply Forall_impl; [exact Hall |]. intros a [Ht Hw].
    by rewrite touched_cons, Hc.
Qed.

Lemma run_frame_step (x : string) (names : list string) (w w1 w' : world) :
  is_candidate x = true →
  frame (filepath_of x) w w1 → run_frame names w1 w' →
  run_frame (x :: names) w w'.
Proof.
  intros Hc (Hd1 & Hs1 & Hg1 & (la1 & Hla1 & Hall1) & (ls1 & Hls1))
            (Hd & Hs & Hg & (la & Hla & Hall) & (ls & Hls)).
  assert (Hkeep : ∀ q, entry_gzipped (store w !! q) = true →
                       store w1 !! q = store w !! q).
  { intros q Hq. destruct (decide (q = filepath_of x)) as [-> | Hne]; auto. }
  split; [congruence |].
  split; [| split; [| split]].
  - intros q. rewrite touched_cons, Hc, orb_false_iff.
    intros [Hq%bool_decide_eq_false Ht]. rewrite Hs, Hs1; done.
  - intros q Hq. rewrite Hg; rewrite Hkeep; done.
  - exists (la1 ++ la). split; [by rewrite Hla, Hla1, app_assoc |].
    apply Forall_app. split.
    + eapply Forall_impl; [exact Hall1 |]. intros a [-> Hw].
      split; [| done].
      by rewrite touched_cons, Hc, bool_decide_eq_true_2.
    + eapply Forall_impl; [exact Hall |]. intros a [Ht Hw].
      split; [rewrite touched_cons, Ht; apply orb_true_r |].
      intros Hwa. specialize (Hw Hwa).
      destruct (entry_gzipped (store w !! access_path a)) eqn:E; [| done].
      by rewrite Hkeep, E in Hw.
  - exists (ls1 ++ ls). by rewrite Hls, Hls1, app_assoc.
Qed.

Lemma for_each_frame (names : list string) (w : world) :
  run_frame names w (for_each process_entry names w).2.
Proof.
  revert w. induction names as [|x names IH]; intros w.
  - apply run_frame_refl.
  - rewrite for_each_cons.
    destruct (is_candidate x) eqn:Hc.
    + pose proof (process_entry_frame x w Hc) as Hf.
      destruct (process_entry x w) as [[[]|e] w1]; cbn [snd] in *.
      * by eapply run_frame_step.
      * eapply run_frame_step; [done | exact Hf | apply run_frame_refl].
    + rewrite process_entry_skip by done. by apply run_frame_skip.
Qed.

(** A run over [names] that ends without an exception: every candidate
    was processable, and each file is left [normalized] if it is a
    candidate's and as it was otherwise. *)
Lemma for_each_ok (names : list string) (w w' : world) :
  for_each process_entry names w = (Ok tt, w') →
  (∀ name, name ∈ names → is_candidate name = true →
           processable (store w !! filepath_of name) = true) ∧
  (∀ q, store w' !! q =
        if touched names q then normalized q <$> store w !! q else store w !! q).
Proof.
  revert w. induction names as [|x names IH]; intros w.
  - intros [= <-]. split; [by intros name ?%elem_of_nil | done].
  - rewrite for_each_cons. destruct (is_candidate x) eqn:Hc.
    + destruct (processable (store w !! filepath_of x)) eqn:Hp.
      * destruct (process_entry_ok x w Hc Hp) as (w1 & -> & _ & Hs & _).
        intros [HA HB]%IH. split.
        -- intros name [-> | Hin]%elem_of_cons Hn; [done |].
           specialize (HA name Hin Hn). rewrite Hs in HA.
           case_bool_decide as E; [| done]. by rewrite <- E.
        -- intros q. rewrite HB, touched_cons, Hc, !Hs. cbn.
           case_bool_decide as E; cbn; [subst q | done].
           destruct (touched names _); [apply normalized_idem | done].
      * destruct (process_entry_raise x w Hc Hp) as (e & w1 & -> & _). done.
    + rewrite process_entry_skip by done. intros [HA HB]%IH. split.
      * intros name [-> | Hin]%elem_of_cons Hn; [congruence | auto].
      * intros q. by rewrite HB, touched_cons, Hc.
Qed.


(** The console and the log of such a run. *)
Lemma for_each_report (names : list string) (w w' : world) :
  for_each process_entry names w = (Ok tt, w') →
  ∃ entries : list (string * bool),
    entries.*1 = candidates names ∧
    Forall (λ e, entry_gzipped (store w !! filepath_of e.1) = true → e.2 = true)
           entries ∧
    stdout w' = stdout w ++ report entries ∧
    oplog w' = oplog w ++ accesses_of entries.
Proof.
  revert w. induction names as [|x names IH]; intros w.
  - intros [= <-]. exists []. by rewrite !app_nil_r.
  - rewrite for_each_cons. unfold candidates. cbn [List.filter].
    destruct (is_candidate x) eqn:Hc.
    + destruct (processable (store w !! filepath_of x)) eqn:Hp.
      * destruct (process_entry_ok x w Hc Hp) as (w1 & -> & _ & Hs & Ho & Hl).
        intros (entries & He & Hall & Ho' & Hl')%IH.
        exists ((x, entry_gzipped (store w !! filepath_of x)) :: entries).
        split; [cbn; by rewrite He |].
        split; [| split].
        -- constructor; [done |].
           eapply Forall_impl; [exact Hall |]. intros [n d] Himp Hg. cbn in *.
           apply Himp. rewrite Hs. case_bool_decide as E; [| done].
           rewrite E. by rewrite normalized_gzipped.
        -- rewrite Ho', Ho. cbn. by rewrite <- app_assoc.
        -- rewrite Hl', Hl. cbn. by rewrite <- app_assoc.
      * destruct (process_entry_raise x w Hc Hp) as (e & w1 & -> & _). done.
    + rewrite process_entry_skip by done. apply IH.
Qed.

(** *** The script as a whole *)

Lemma main_unfold (w : world) :
  main w =
  match dirs w !! models_dir with
  | None => (Raise (FileNotFoundError models_dir), put_line startup_line w)
  | Some names =>
      match for_each process_entry names (put_line startup_line w) with
      | (Ok _, w1) => (Ok tt, put_line done_line w1)
      | (Raise e, w1) => (Raise e, w1)
      end
  end.
Proof.
  unfold main, mbind, io_bind, print, modify, listdir. cbn.
  destruct (dirs w !! models_dir) as [names|]; [| done].
  by destruct (for_each process_entry names _) as [[[]|e] w1].
Qed.

Lemma main_ok (w w' : world) :
  main w = (Ok tt, w') →
  ∃ names w1,
    dirs w !! models_dir = Some names ∧
    for_each process_entry names (put_line startup_line w) = (Ok tt, w1) ∧
    w' = put_line done_line w1.
Proof.
  rewrite main_unfold.
  destruct (dirs w !! models_dir) as [names|]; [| done].
  destruct (for_each process_entry names _) as [[[]|e] w1] eqn:E; [| done].
  intros [= <-]. by exists names, w1.
Qed.

Lemma main_frame (w : world) : run_frame (listing w) w (main w).2.
Proof.
  rewrite main_unfold. unfold listing.
  destruct (dirs w !! models_dir) as [names|]; cbn [default].
  - pose proof (for_each_frame names (put_line startup_line w)) as Hf.
    destruct (for_each process_entry names _) as [[[]|e] w1]; cbn [snd] in *;
      destruct Hf as (Hd & Hs & Hg & (la & Hla & Hall) & (ls & Hls));
      (split; [done |]; split; [done |]; split; [done |]; split; [by exists la |]);
      cbn in *; rewrite Hls, <- ?app_assoc; by eexists.
  - split; [done |]. split; [done |]. split; [done |]. split.
    + exists []. by rewrite app_nil_r.
    + by eexists.
Qed.

Lemma elem_of_candidates (names : list string) (name : string) :
  name ∈ candidates names ↔ name ∈ names ∧ is_candidate name = true.
Proof. unfold candidates. by rewrite !list_elem_of_In, filter_In. Qed.

Lemma touched_candidate (names : list string) (name : string) :
  name ∈ names → is_candidate name = true → touched names (filepath_of name) = true.
Proof. intros Hin Hc. apply touched_spec. by exists name. Qed.


(** A complete run, file by file. *)
Lemma main_ok_store (w w' : world) (names : list string) :
  main w = (Ok tt, w') →
  dirs w !! models_dir = Some names →
  dirs w' = dirs w ∧
  (∀ name, name ∈ names → is_candidate name = true →
           processable (store w !! filepath_of name) = true) ∧
  (∀ q, store w' !! q =
        if touched names q then normalized q <$> store w !! q else store w !! q).
Proof.
  intros (names' & w1 & Hn & Hrun & ->)%main_ok Hnames.
  assert (names' = names) as -> by congruence.
  pose proof (for_each_frame names (put_line startup_line w)) as (Hd & _).
  rewrite Hrun in Hd. by apply for_each_ok in Hrun as [HA HB].
Qed.

Lemma ok_line_in_report (entries : list (string * bool)) (name : string) :
  (name, true) ∈ entries → ok_line name ∈ report entries.
Proof.
  intros Hin. unfold report. rewrite list_elem_of_In, in_flat_map.
  exists (name, true). split; [by apply list_elem_of_In | by left].
Qed.

(** A loop raises exactly when some step raises after the steps before it
    went through; the state is then the one that step left. *)
Lemma for_each_raise {A} (body : A → IO unit) (xs : list A) (w w' : world) (e : exn) :
  for_each body xs w = (Raise e, w') ↔
  ∃ pre x post w1,
    xs = pre ++ x :: post ∧
    for_each body pre w = (Ok tt, w1) ∧
    body x w1 = (Raise e, w').
Proof.
  revert w. induction xs as [|a xs IH]; intros w.
  - split; [done |]. intros (pre & x & post & w1 & Hxs & _).
    by destruct pre.
  - rewrite for_each_cons. destruct (body a w) as [[[]|e0] wa] eqn:E.
    + rewrite IH. split.
      * intros (pre & x & post & w1 & -> & Hpre & Hx).
        exists (a :: pre), x, post, w1. by rewrite for_each_cons, E.
      * intros (pre & x & post & w1 & Hxs & Hpre & Hx).
        destruct pre as [|a' pre]; injection Hxs as <- ->.
        -- injection Hpre as <-. congruence.
        -- rewrite for_each_cons, E in Hpre. by exists pre, x, post, w1.
    + split.
      * intros [= <- <-]. by exists [], a, xs, w.
      * intros (pre & x & post & w1 & Hxs & Hpre & Hx).
        destruct pre as [|a' pre]; injection Hxs as <- ->.
        -- injection Hpre as <-. congruence.
        -- by rewrite for_each_cons, E in Hpre.
Qed.

(** Nothing in the loop body catches: an exception of the header read, of
    the full read or of the gzip write is the exception of the body. *)
Lemma process_entry_propagates (x : string) (w : world) (e : exn) (w' : world) :
  is_candidate x = true →
  let p := filepath_of x in
  (read_file p (Some 2) w = (Raise e, w') → process_entry x w = (Raise e, w')) ∧
  (∀ header wa,
     read_file p (Some 2) w = (Ok header, wa) →
     is_gzip_header header = false →
     (read_file p None (put_line (fix_line x) wa) = (Raise e, w') →
      process_entry x w = (Raise e, w')) ∧
     (∀ data wb,
        read_file p None (put_line (fix_line x) wa) = (Ok data, wb) →
        gzip_write p data wb = (Raise e, w') →
        process_entry x w = (Raise e, w'))).
Proof.
  intros Hc p. subst p. unfold process_entry. rewrite Hc.
  unfold mbind, io_bind. split.
  - by intros ->.
  - intros header wa -> ->. unfold print, modify. split.
    + by intros ->.
    + by intros data wb -> ->.
Qed.

Lemma touched_absent (names : list string) (name : string) :
  name ∉ names → touched names (filepath_of name) = false.
Proof.
  intros Hn. apply not_true_is_false. intros (c & Hin & _ & Heq)%touched_spec.
  apply filepath_of_inj in Heq. by subst c.
Qed.

Lemma process_entry_raise_inv (x : string) (w w' : world) (e : exn) :
  process_entry x w = (Raise e, w') →
  is_candidate x = true ∧ processable (store w !! filepath_of x) = false.
Proof.
  intros Hx. destruct (is_candidate x) eqn:Hc.
  - split; [done |]. apply not_true_is_false. intros Hp.
    destruct (process_entry_ok x w Hc Hp) as (w1 & Hok & _). congruence.
  - by rewrite process_entry_skip in Hx.
Qed.

End ScriptFacts.

(** * The properties of the specification *)

Section Properties.
Context `{codec : GzipCodec}.

(** C1 (fix correctness). After a run that completes, every candidate file
    (an entry of the listing whose name ends in [.frag]) whose first two
    bytes were not [0x1F 0x8B] starts with [0x1F 0x8B], and decompressing
    its new content gives exactly the content it had before the run. *)
Theorem fix_correct (w w' : world) (names : list string) (name : string) (f : file) :
  main w = (Ok tt, w') →
  dirs w !! models_dir = Some names →
  name ∈ names →
  is_candidate name = true →
  store w !! filepath_of name = Some (NFile f) →
  take 2 (content f) ≠ gzip_magic →
  ∃ f', store w' !! filepath_of name = Some (NFile f') ∧
        take 2 (content f') = gzip_magic ∧
        gzip_decompress (content f') = Some (content f).
Proof.
  intros Hrun Hnames Hin Hc Hf Hm.
  destruct (main_ok_store w w' names Hrun Hnames) as (_ & _ & Hs).
  rewrite Hs, touched_candidate, Hf by done. cbn.
  destruct (has_magic (content f)) eqn:E; [by apply has_magic_spec in E |].
  eexists. split; [done |]. cbn.
  by rewrite gzip_compress_magic, gzip_decompress_compress.
Qed.

(** C2 (classification). A candidate file whose first two bytes are
    [0x1F 0x8B] is left as it is and is never opened for writing, however
    the run ends; and a run that completes prints
    [[OK] <name> is already gzipped.] for it. *)
Theorem gzipped_untouched (w w' : world) (r : result unit)
    (names : list string) (name : string) (f : file) :
  main w = (r, w') →
  dirs w !! models_dir = Some names →
  name ∈ names →
  is_candidate name = true →
  store w !! filepath_of name = Some (NFile f) →
  take 2 (content f) = gzip_magic →
  store w' !! filepath_of name = Some (NFile f) ∧
  (∃ la, oplog w' = oplog w ++ la ∧ OpenWrite (filepath_of name) ∉ la) ∧
  (r = Ok tt → ∃ ls, stdout w' = stdout w ++ ls ∧ ok_line name ∈ ls).
Proof.
  intros Hrun Hnames Hin Hc Hf Hm.
  assert (Hg : entry_gzipped (store w !! filepath_of name) = true).
  { rewrite Hf. by apply has_magic_spec. }
  pose proof (main_frame w) as (_ & _ & Hkeep & (la & Hla & Hall) & _).
  rewrite Hrun in *. cbn [snd] in *.
  split; [by rewrite Hkeep | split].
  - exists la. split; [done |]. intros Hw.
    rewrite Forall_forall in Hall. destruct (Hall _ Hw) as [_ Habs].
    cbn in Habs. rewrite Hg in Habs. by specialize (Habs eq_refl).
  - intros ->. apply main_ok in Hrun as (names' & w1 & Hn & Hfor & ->).
    assert (names' = names) as -> by congruence.
    apply for_each_report in Hfor as (entries & He & Hd & Hout & _).
    exists ([startup_line] ++ report entries ++ [done_line]). split.
    + cbn in *. by rewrite Hout, <- !app_assoc.
    + assert (Hcand : name ∈ entries.*1)
        by (rewrite He; by apply elem_of_candidates).
      apply list_elem_of_fmap in Hcand as ([n d] & -> & Hnd).
      rewrite Forall_forall in Hd. specialize (Hd _ Hnd Hg). cbn in Hd. subst d.
      apply elem_of_app. right. apply elem_of_app. left.
      by apply ok_line_in_report.
Qed.

(** C3 (invariant). After a run that completes, every candidate file is a
    file that starts with [0x1F 0x8B]. *)
Theorem all_candidates_gzipped (w w' : world) (names : list string) (name : string) :
  main w = (Ok tt, w') →
  dirs w !! models_dir = Some names →
  name ∈ names →
  is_candidate name = true →
  ∃ f, store w' !! filepath_of name = Some (NFile f) ∧
       take 2 (content f) = gzip_magic.
Proof.
  intros Hrun Hnames Hin Hc.
  destruct (main_ok_store w w' names Hrun Hnames) as (_ & Hp & Hs).
  specialize (Hp name Hin Hc).
  apply (processable_normalized (filepath_of name)) in Hp as [_ Hg].
  rewrite Hs, touched_candidate by done.
  destruct (normalized _ <$> _) as [[f|]|]; try done.
  exists f. split; [done | by apply has_magic_spec].
Qed.




(** C7 (console output). A run that completes prints the startup line,
    then for each candidate in turn either the one line
    [[OK] <name> is already gzipped.] or the two lines
    [[FIX] <name> is NOT gzipped. Compressing...] and
    [      Compressed <name>], then [Done.], and nothing else. *)
Theorem console_output (w w' : world) :
  main w = (Ok tt, w') →
  ∃ entries : list (string * bool),
    entries.*1 = candidates (listing w) ∧
    stdout w' = stdout w ++ [startup_line] ++ report entries ++ [done_line].
Proof.
  intros (names & w1 & Hnames & Hfor & ->)%main_ok.
  unfold listing. rewrite Hnames. cbn [default].
  apply for_each_report in Hfor as (entries & He & _ & Hout & _).
  exists entries. split; [done |].
  cbn in *. by rewrite Hout, <- !app_assoc.
Qed.

(** C8 (no recovery). The script raises exactly when the listing fails or
    the loop body raises on some entry after the entries before it went
    through, and it stops there, in the state that step left; the loop
    body raises whatever its header read, its full read or its gzip write
    raises. The candidates before the failure are then as a complete run
    leaves them, and an entry that comes only after it is neither opened
    nor changed. *)
Theorem errors_abort (w w' : world) (e : exn) :
  (main w = (Raise e, w') ↔
   (dirs w !! models_dir = None ∧ e = FileNotFoundError models_dir ∧
    w' = put_line startup_line w) ∨
   (∃ pre x post w1,
      dirs w !! models_dir = Some (pre ++ x :: post) ∧
      for_each process_entry pre (put_line startup_line w) = (Ok tt, w1) ∧
      process_entry x w1 = (Raise e, w'))) ∧
  (∀ x w0 e0 w0',
     is_candidate x = true →
     (read_file (filepath_of x) (Some 2) w0 = (Raise e0, w0') →
      process_entry x w0 = (Raise e0, w0')) ∧
     (∀ header wa,
        read_file (filepath_of x) (Some 2) w0 = (Ok header, wa) →
        is_gzip_header header = false →
        (read_file (filepath_of x) None (put_line (fix_line x) wa) = (Raise e0, w0') →
         process_entry x w0 = (Raise e0, w0')) ∧
        (∀ data wb,
           read_file (filepath_of x) None (put_line (fix_line x) wa) = (Ok data, wb) →
           gzip_write (filepath_of x) data wb = (Raise e0, w0') →
           process_entry x w0 = (Raise e0, w0')))) ∧
  (∀ (pre : list string) (x : string) (post : list string) (w1 : world),
     for_each process_entry pre (put_line startup_line w) = (Ok tt, w1) →
     process_entry x w1 = (Raise e, w') →
     (∀ y, y ∈ pre → is_candidate y = true →
           store w' !! filepath_of y = normalized (filepath_of y) <$> store w !! filepath_of y) ∧
     (∀ y, y ∈ post → y ∉ pre → y ≠ x →
           store w' !! filepath_of y = store w !! filepath_of y ∧
           ∃ la, oplog w' = oplog w ++ la ∧
                 Forall (λ a, access_path a ≠ filepath_of y) la)).
Proof.
  split.
  - rewrite main_unfold. destruct (dirs w !! models_dir) as [names|].
    + destruct (for_each process_entry names _) as [[[]|e0] w1] eqn:E.
      * split; [done |]. intros [[? _] | (pre & x & post & w0 & [= ->] & Hpre & Hx)]; [done |].
        assert (for_each process_entry (pre ++ x :: post) (put_line startup_line w)
                = (Raise e, w')) as Habs
          by (apply for_each_raise; by exists pre, x, post, w0).
        congruence.
      * split.
        -- intros [= <- <-]. right.
           apply for_each_raise in E as (pre & x & post & w0 & -> & Hpre & Hx).
           by exists pre, x, post, w0.
        -- intros [[? _] | (pre & x & post & w0 & [= ->] & Hpre & Hx)]; [done |].
           assert (for_each process_entry (pre ++ x :: post) (put_line startup_line w)
                   = (Raise e, w')) as Habs
             by (apply for_each_raise; by exists pre, x, post, w0).
           congruence.
    + split.
      * intros [= <- <-]. by left.
      * intros [(_ & -> & ->) | (? & ? & ? & ? & ? & _)]; done.
  - split; [intros x w0 e0 w0' Hc; by apply process_entry_propagates |].
    intros pre x post w1 Hpre Hx.
    destruct (process_entry_raise_inv x w1 w' e Hx) as [Hc Hp].
    pose proof (process_entry_frame x w1 Hc) as (_ & Hoff & _ & (la2 & Hla2 & Hall2) & _).
    rewrite Hx in *. cbn [snd] in *.
    pose proof (for_each_frame pre (put_line startup_line w))
      as (_ & Hoff1 & _ & (la1 & Hla1 & Hall1) & _).
    rewrite Hpre in *. cbn [snd] in *.
    destruct (for_each_ok _ _ _ Hpre) as [Hproc Hs]. cbn in Hproc, Hs.
    split.
    + intros y Hy Hcy.
      assert (Hy1 : store w1 !! filepath_of y
                    = normalized (filepath_of y) <$> store w !! filepath_of y)
        by (by rewrite Hs, touched_candidate).
      destruct (decide (filepath_of y = filepath_of x)) as [Heq | Hne].
      * rewrite <- Heq, Hy1 in Hp.
        destruct (processable_normalized (filepath_of y) (store w !! filepath_of y));
          [by apply Hproc | congruence].
      * by rewrite Hoff.
    + intros y _ Hy Hyx.
      assert (Hne : filepath_of y ≠ filepath_of x)
        by (intros Heq%filepath_of_inj; done).
      split; [rewrite Hoff, Hoff1 by (done || by apply touched_absent); done |].
      exists (la1 ++ la2). split; [by rewrite Hla2, Hla1, app_assoc |].
      apply Forall_app. split.
      * eapply Forall_impl; [exact Hall1 |]. intros a [Ht _] Heq.
        rewrite Heq, touched_absent in Ht; done.
      * eapply Forall_impl; [exact Hall2 |]. intros a [-> _]. done.
Qed.



Lemma short_header (c : bytes) :
  (length c < 2)%nat → take 2 c = c ∧ is_gzip_header c = false.
Proof.
  intros Hlen. split; [apply take_ge; lia |].
  unfold is_gzip_header. apply bool_decide_eq_false. intros ->. cbn in Hlen. lia.
Qed.

(** C5, as amended. The read of the first two bytes of a candidate file
    shorter than two bytes that can be opened for reading does not fail:
    it returns the bytes the file has; and when the file can be written,
    the loop body ends without an exception. *)
Theorem short_read_succeeds (w : world) (name : string) (f : file) :
  is_candidate name = true →
  store w !! filepath_of name = Some (NFile f) →
  readable f = true →
  (length (content f) < 2)%nat →
  read_file (filepath_of name) (Some 2) w
  = (Ok (content f), log_access (OpenRead (filepath_of name)) w) ∧
  (wmode f = Writable → (process_entry name w).1 = Ok tt).
Proof.
  intros Hc Hf Hr Hlen. destruct (short_header _ Hlen) as [Htake Hhd]. split.
  - unfold read_file. by rewrite Hf, Hr, Htake.
  - intros Hw.
    destruct (process_entry_ok name w Hc) as (w' & -> & _); [| done].
    rewrite Hf. cbn. by rewrite Hr, Hw, orb_true_r.
Qed.

(** C10 (short files). For a readable candidate file shorter than two
    bytes, the header read returns the short content without an error,
    the header differs from [0x1F 0x8B], and the file, when it can be
    written, is compressed in place after the [FIX] line: its new content
    is the gzip stream of the old one, which starts with [0x1F 0x8B] and
    decompresses to the old content (for an empty file, to no bytes). *)
Theorem short_file_compressed (w : world) (name : string) (f : file) :
  is_candidate name = true →
  store w !! filepath_of name = Some (NFile f) →
  readable f = true →
  wmode f = Writable →
  (length (content f) < 2)%nat →
  let p := filepath_of name in
  (read_file p (Some 2) w).1 = Ok (content f) ∧
  is_gzip_header (content f) = false ∧
  process_entry name w =
  (Ok tt,
   World (dirs w)
         (<[p := NFile (File (gzip_compress p (content f)) true Writable)]> (store w))
         (stdout w ++ [fix_line name; compressed_line name])
         (oplog w ++ [OpenRead p; OpenRead p; OpenWrite p])) ∧
  take 2 (gzip_compress p (content f)) = gzip_magic ∧
  gzip_decompress (gzip_compress p (content f)) = Some (content f).
Proof.
  intros Hc Hf Hr Hw Hlen p. destruct (short_header _ Hlen) as [Htake Hhd].
  split; [unfold read_file; subst p; by rewrite Hf, Hr, Htake |].
  split; [done |].
  split; [apply process_entry_fix; try done;
          unfold has_magic; by rewrite Htake |].
  split; [apply gzip_compress_magic | apply gzip_decompress_compress].
Qed.

End Properties.

(** * The script at work on concrete directories *)

Section Scenarios.
#[local] Existing Instance stored_codec.

Example demo_run_console :
  stdout (main demo_world).2 =
  ["Checking models in VSR_IFC/public/models...";
   "[FIX] mesh.frag is NOT gzipped. Compressing...";
   "      Compressed mesh.frag";
   "[OK] packed.frag is already gzipped.";
   "[FIX] empty.frag is NOT gzipped. Compressing...";
   "      Compressed empty.frag";
   "Done."].
Proof. vm_compute. reflexivity. Qed.

Example demo_run_ok : main demo_world = (Ok tt, (main demo_world).2).
Proof. vm_compute. reflexivity. Qed.

Ltac in_list := repeat first [apply list_elem_of_here | apply list_elem_of_further].
Ltac by_eval := vm_compute; first [reflexivity | discriminate | lia].

Lemma fix_correct_witness :
  ∃ f', store (main demo_world).2 !! filepath_of "mesh.frag" = Some (NFile f') ∧
        take 2 (content f') = gzip_magic ∧
        gzip_decompress (content f') = Some (ascii_bytes "plain text data").
Proof.
  apply (fix_correct demo_world (main demo_world).2 demo_names "mesh.frag"
           (File (ascii_bytes "plain text data") true Writable));
    [by_eval | by_eval | in_list | by_eval | by_eval |].
  vm_compute. intros H. discriminate H.
Defined.

Lemma gzipped_untouched_witness :
  store (main demo_world).2 !! filepath_of "packed.frag" = Some (NFile packed_file) ∧
  (∃ la, oplog (main demo_world).2 = oplog demo_world ++ la ∧
         OpenWrite (filepath_of "packed.frag") ∉ la) ∧
  (Ok tt = Ok tt →
   ∃ ls, stdout (main demo_world).2 = stdout demo_world ++ ls ∧
         ok_line "packed.frag" ∈ ls).
Proof.
  apply (gzipped_untouched demo_world (main demo_world).2 (Ok tt) demo_names
           "packed.frag" packed_file);
    [by_eval | by_eval | in_list | by_eval | by_eval | by_eval].
Defined.

Lemma all_candidates_gzipped_witness :
  ∃ f, store (main demo_world).2 !! filepath_of "empty.frag" = Some (NFile f) ∧
       take 2 (content f) = gzip_magic.
Proof.
  apply (all_candidates_gzipped demo_world (main demo_world).2 demo_names "empty.frag");
    [by_eval | by_eval | in_list | by_eval].
Defined.



Lemma console_output_witness :
  ∃ entries : list (string * bool),
    entries.*1 = candidates (listing demo_world) ∧
    stdout (main demo_world).2
    = stdout demo_world ++ [startup_line] ++ report entries ++ [done_line].
Proof. apply (console_output demo_world (main demo_world).2). by_eval. Defined.

Lemma errors_abort_witness :
  main locked_world
  = (Raise (PermissionError (filepath_of "locked.frag")), (main locked_world).2) ∧
  (∀ y, y ∈ ["a.frag"] → is_candidate y = true →
        store (main locked_world).2 !! filepath_of y
        = normalized (filepath_of y) <$> store locked_world !! filepath_of y) ∧
  (∀ y, y ∈ ["later.frag"] → y ∉ ["a.frag"] → y ≠ "locked.frag" →
        store (main locked_world).2 !! filepath_of y
        = store locked_world !! filepath_of y ∧
        ∃ la, oplog (main locked_world).2 = oplog locked_world ++ la ∧
              Forall (λ a, access_path a ≠ filepath_of y) la).
Proof.
  split; [by_eval |].
  apply (proj2 (proj2 (errors_abort locked_world (main locked_world).2
                         (PermissionError (filepath_of "locked.frag"))))
           ["a.frag"] "locked.frag" ["later.frag"]
           (for_each process_entry ["a.frag"] (put_line startup_line locked_world)).2);
    by_eval.
Defined.


Lemma short_read_succeeds_witness :
  read_file (filepath_of "empty.frag") (Some 2) demo_world
  = (Ok [], log_access (OpenRead (filepath_of "empty.frag")) demo_world) ∧
  (Writable = Writable → (process_entry "empty.frag" demo_world).1 = Ok tt).
Proof.
  apply (short_read_succeeds demo_world "empty.frag" (File [] true Writable)); by_eval.
Defined.

(** C5, as stated, fails: on a directory with the zero-byte model
    [empty.frag] the read of two bytes raises nothing (it returns no
    bytes) and the run is not aborted. *)
Lemma short_read_raises_refuted :
  is_candidate "empty.frag" = true ∧
  store demo_world !! filepath_of "empty.frag" = Some (NFile (File [] true Writable)) ∧
  (read_file (filepath_of "empty.frag") (Some 2) demo_world).1 = Ok [] ∧
  ¬ (∃ e, (read_file (filepath_of "empty.frag") (Some 2) demo_world).1 = Raise e) ∧
  (main demo_world).1 = Ok tt.
Proof.
  split; [by_eval |]. split; [by_eval |]. split; [by_eval |]. split; [| by_eval].
  intros [e He]. vm_compute in He. discriminate He.
Qed.

Lemma short_file_compressed_witness :
  let p := filepath_of "empty.frag" in
  (read_file p (Some 2) demo_world).1 = Ok [] ∧
  is_gzip_header [] = false ∧
  process_entry "empty.frag" demo_world =
  (Ok tt,
   World (dirs demo_world)
         (<[p := NFile (File (gzip_compress p []) true Writable)]> (store demo_world))
         (stdout demo_world ++ [fix_line "empty.frag"; compressed_line "empty.frag"])
         (oplog demo_world ++ [OpenRead p; OpenRead p; OpenWrite p])) ∧
  take 2 (gzip_compress p []) = gzip_magic ∧
  gzip_decompress (gzip_compress p []) = Some [].
Proof.
  apply (short_file_compressed demo_world "empty.frag" (File [] true Writable)); by_eval.
Defined.

End Scenarios.

(** * Further properties of the script *)

Section MoreProperties.
Context `{codec : GzipCodec}.

(** *** What an exception in the loop body leaves *)

Lemma process_entry_raise_cases (x : string) (w w' : world) (e : exn) :
  process_entry x w = (Raise e, w') →
  let p := filepath_of x in
  (store w' = store w ∧
   (stdout w' = stdout w ∨ stdout w' = stdout w ++ [fix_line x])) ∨
  (∃ f k, store w !! p = Some (NFile f) ∧
          readable f = true ∧
          has_magic (content f) = false ∧
          wmode f = WriteFailsAfter k ∧
          e = NoSpaceError p ∧
          store w' = <[p := NFile (File (take k (gzip_compress p (content f)))
                                         true (WriteFailsAfter k))]> (store w) ∧
          stdout w' = stdout w ++ [fix_line x]).
Proof.
  intros H p. subst p. unfold process_entry in H.
  destruct (is_candidate x); [| done].
  unfold mbind, io_bind, read_file in H.
  destruct (store w !! filepath_of x) as [[f|]|] eqn:Hf;
    [| injection H as <- <-; left; split; [done | by left] ..].
  destruct (readable f) eqn:Hr;
    [| injection H as <- <-; left; split; [done | by left]].
  destruct (is_gzip_header (take 2 (content f))) eqn:Hm; [done |].
  cbn in H. rewrite Hf, Hr in H. unfold gzip_write in H. cbn in H.
  rewrite Hf in H. destruct (wmode f) as [| |k] eqn:Hw; [done | ..];
    injection H as <- <-.
  - left. split; [done | by right].
  - right. exists f, k. by rewrite Hr.
Qed.




Lemma for_each_no_candidates (names : list string) (w : world) :
  candidates names = [] → for_each process_entry names w = (Ok tt, w).
Proof.
  induction names as [|x names IH]; [done |].
  unfold candidates. cbn [List.filter]. destruct (is_candidate x) eqn:Hc; [done |].
  intros H. rewrite for_each_cons, process_entry_skip by done. by apply IH.
Qed.

(** X3 (nothing to do). When the listing has no name ending in [.frag],
    an empty directory included, the run completes, prints the startup
    line and [Done.] and nothing else, opens no file and changes none. *)
Theorem no_candidates (w : world) (names : list string) :
  dirs w !! models_dir = Some names →
  candidates names = [] →
  main w = (Ok tt, World (dirs w) (store w)
                         (stdout w ++ [startup_line; done_line]) (oplog w)).
Proof.
  intros Hn Hc. rewrite main_unfold, Hn, for_each_no_candidates by done.
  unfold put_line. cbn. by rewrite <- app_assoc.
Qed.

(** *** What no run does *)

Lemma same_shape_refl (a : option node) : same_shape a a.
Proof. by destruct a as [[f|]|]. Qed.

Lemma same_shape_trans (a b c : option node) :
  same_shape a b → same_shape b c → same_shape a c.
Proof.
  destruct a as [[f|]|], b as [[g|]|], c as [[h|]|]; cbn; try done. congruence.
Qed.

Lemma same_shape_normalized (path : string) (a : option node) :
  same_shape a (normalized path <$> a).
Proof.
  destruct a as [[f|]|]; cbn; try done. by destruct (has_magic (content f)).
Qed.

Lemma process_entry_shape (x : string) (w : world) (q : string) :
  same_shape (store w !! q) (store (process_entry x w).2 !! q).
Proof.
  destruct (process_entry x w) as [[[]|e] w1] eqn:E; cbn [snd].
  - destruct (is_candidate x) eqn:Hc.
    + destruct (processable (store w !! filepath_of x)) eqn:Hp.
      * destruct (process_entry_ok x w Hc Hp) as (w2 & E2 & _ & Hs & _).
        assert (w2 = w1) as -> by congruence. rewrite Hs.
        case_bool_decide as Hq; [subst q; apply same_shape_normalized
                                | apply same_shape_refl].
      * destruct (process_entry_raise x w Hc Hp) as (? & ? & ? & _). congruence.
    + rewrite process_entry_skip in E by done. injection E as <-.
      apply same_shape_refl.
  - apply process_entry_raise_cases in E
      as [[-> _] | (f & k & Hf & Hr & _ & _ & _ & -> & _)].
    + apply same_shape_refl.
    + rewrite lookup_insert. case_decide as Hq; [| apply same_shape_refl].
      subst q. by rewrite Hf.
Qed.

Lemma for_each_shape (names : list string) (w : world) (q : string) :
  same_shape (store w !! q) (store (for_each process_entry names w).2 !! q).
Proof.
  revert w. induction names as [|x names IH]; intros w; [apply same_shape_refl |].
  rewrite for_each_cons. pose proof (process_entry_shape x w q) as Hx.
  destruct (process_entry x w) as [[[]|e] w1]; cbn [snd] in *; [| done].
  eapply same_shape_trans; [exact Hx | apply IH].
Qed.

(** X4 (no file appears or disappears). Whatever the outcome of a run, at
    every path there is a file afterwards exactly if there was one before,
    a directory exactly if there was one before, and a file is readable
    exactly if it was: the script creates, removes and re-permissions
    nothing. *)
Theorem files_persist (w w' : world) (r : result unit) (q : string) :
  main w = (r, w') →
  same_shape (store w !! q) (store w' !! q) ∧
  (is_Some (store w' !! q) ↔ is_Some (store w !! q)).
Proof.
  intros Hrun.
  assert (Hshape : same_shape (store w !! q) (store w' !! q)).
  { rewrite main_unfold in Hrun.
    destruct (dirs w !! models_dir) as [names|];
      [| injection Hrun as <- <-; apply same_shape_refl].
    pose proof (for_each_shape names (put_line startup_line w) q) as Hs.
    destruct (for_each process_entry names _) as [[[]|e] w1];
      injection Hrun as <- <-; exact Hs. }
  split; [done |].
  destruct (store w !! q) as [[f|]|], (store w' !! q) as [[g|]|]; cbn in Hshape;
    try done; split; (by intros [? [=]] || by eexists).
Qed.






(** *** Runs that are aborted *)

(** X7 (abort without loss). When a run is aborted by anything but a
    write that fails midway, every file holds what it held before the run
    or the complete gzip stream of it: a run stopped by a missing,
    unreadable or write-protected file, or by a directory named like a
    model, leaves no file damaged. *)
Theorem abort_without_loss (w w' : world) (e : exn) (q : string) :
  main w = (Raise e, w') →
  (∀ p, e ≠ NoSpaceError p) →
  store w' !! q = store w !! q ∨
  store w' !! q = normalized q <$> store w !! q.
Proof.
  rewrite main_unfold. intros Hrun He.
  destruct (dirs w !! models_dir) as [names|];
    [| injection Hrun as _ <-; by left].
  destruct (for_each process_entry names _) as [[[]|e0] w0] eqn:E; [done |].
  injection Hrun as -> ->.
  apply for_each_raise in E as (pre & x & post & w1 & _ & Hpre & Hx).
  apply for_each_ok in Hpre as [_ Hs].
  apply process_entry_raise_cases in Hx
    as [[-> _] | (f & k & _ & _ & _ & _ & -> & _)]; [| by destruct (He (filepath_of x))].
  rewrite Hs. cbn. destruct (touched pre q); [by right | by left].
Qed.

(** X8 (console of an aborted run). A run that is aborted has printed the
    startup line, the lines of the candidates before the failing entry,
    and then at most the [[FIX]] line of the failing candidate: never its
    [Compressed] line, and never [Done.]. *)
Theorem aborted_console (w w' : world) (e : exn) :
  main w = (Raise e, w') →
  (dirs w !! models_dir = None ∧ stdout w' = stdout w ++ [startup_line]) ∨
  ∃ pre x post (entries : list (string * bool)),
    dirs w !! models_dir = Some (pre ++ x :: post) ∧
    is_candidate x = true ∧
    entries.*1 = candidates pre ∧
    (stdout w' = stdout w ++ [startup_line] ++ report entries ∨
     stdout w' = stdout w ++ [startup_line] ++ report entries ++ [fix_line x]).
Proof.
  rewrite main_unfold. intros Hrun.
  destruct (dirs w !! models_dir) as [names|];
    [| injection Hrun as _ <-; by left].
  destruct (for_each process_entry names _) as [[[]|e0] w0] eqn:E; [done |].
  injection Hrun as -> ->. right.
  apply for_each_raise in E as (pre & x & post & w1 & -> & Hpre & Hx).
  apply for_each_report in Hpre as (entries & He & _ & Hout & _).
  destruct (process_entry_raise_inv x w1 w' e Hx) as [Hc _].
  exists pre, x, post, entries. split; [done |]. split; [done |]. split; [done |].
  cbn in Hout.
  apply process_entry_raise_cases in Hx
    as [[_ [-> | ->]] | (f & k & _ & _ & _ & _ & _ & _ & ->)];
    rewrite Hout, <- ?app_assoc; auto.
Qed.

(** X9 (a failed write is not repaired). The gzip stream is written over
    the file itself, so when the write of a candidate fails after at least
    two bytes, the body raises with the file cut down to the first bytes
    of the stream; the original content is gone, and processing the entry
    again finds [0x1F 0x8B], prints the [[OK]] line and leaves the cut
    file as it is. *)
Theorem failed_write_not_repaired (x : string) (w : world) (f : file) (k : nat) :
  is_candidate x = true →
  store w !! filepath_of x = Some (NFile f) →
  readable f = true →
  has_magic (content f) = false →
  wmode f = WriteFailsAfter k →
  (2 ≤ k)%nat →
  let p := filepath_of x in
  let cut := File (take k (gzip_compress p (content f))) true (WriteFailsAfter k) in
  ∃ w', process_entry x w = (Raise (NoSpaceError p), w') ∧
        store w' !! p = Some (NFile cut) ∧
        process_entry x w'
        = (Ok tt, put_line (ok_line x) (log_access (OpenRead p) w')).
Proof.
  intros Hc Hf Hr Hm Hw Hk p cut. subst p cut.
  eexists. split; [| split].
  - unfold process_entry. rewrite Hc.
    unfold mbind, io_bind, read_file. rewrite Hf, Hr.
    unfold has_magic in Hm. rewrite Hm.
    cbn. rewrite Hf, Hr. unfold gzip_write. cbn. rewrite Hf, Hw, Hr.
    reflexivity.
  - cbn. by rewrite lookup_insert_eq.
  - eapply process_entry_gzipped; [done | cbn; by rewrite lookup_insert_eq | done |].
    cbn. apply has_magic_spec.
    rewrite take_take, Nat.min_l by done. apply gzip_compress_magic.
Qed.


Lemma string_length_app (a b : string) :
  String.length (a +:+ b) = (String.length a + String.length b)%nat.
Proof.
  induction a as [|c a IH]; [done |].
  change (String c a +:+ b) with (String c (a +:+ b)). cbn. by rewrite IH.
Qed.

Lemma same_length_suffix (a b s t : string) :
  a +:+ s = b +:+ t → String.length s = String.length t → s = t.
Proof.
  revert b. induction a as [|c a IH]; intros [|c' b] Heq Hlen.
  - done.
  - change ("" +:+ s) with s in Heq. subst s.
    change (String c' b +:+ t) with (String c' (b +:+ t)) in Hlen.
    cbn in Hlen. rewrite string_length_app in Hlen. lia.
  - change ("" +:+ t) with t in Heq. subst t.
    change (String c a +:+ s) with (String c (a +:+ s)) in Hlen.
    cbn in Hlen. rewrite string_length_app in Hlen. lia.
  - change (String c a +:+ s) with (String c (a +:+ s)) in Heq.
    change (String c' b +:+ t) with (String c' (b +:+ t)) in Heq.
    injection Heq as _ Heq. by apply (IH b).
Qed.

(** X11 (the last five characters decide). Whether a name is a candidate
    depends on its last five characters alone, which have to be exactly
    [.frag]: [.FRAG], [.frag ] or [frag.] do not make a candidate, and
    nothing in front of the suffix matters. *)
Theorem candidate_by_last_five (pre t : string) :
  String.length t = 5 →
  (is_candidate (pre +:+ t) = true ↔ t = ".frag").
Proof.
  intros Hlen. unfold is_candidate. rewrite endswith_spec. split.
  - intros [pre' Heq]. by apply (same_length_suffix pre pre').
  - intros ->. by exists pre.
Qed.

End MoreProperties.

(** * The further properties on concrete directories *)

Section MoreScenarios.
#[local] Existing Instance stored_codec.

Ltac by_eval := vm_compute; first [reflexivity | discriminate | lia].



Lemma no_candidates_witness :
  main notes_world
  = (Ok tt, World (dirs notes_world) (store notes_world)
                  (stdout notes_world ++ [startup_line; done_line])
                  (oplog notes_world)).
Proof.
  apply (no_candidates notes_world ["readme.txt"; "mesh.FRAG"]); by_eval.
Defined.

Lemma files_persist_witness :
  same_shape (store locked_world !! filepath_of "a.frag")
             (store (main locked_world).2 !! filepath_of "a.frag") ∧
  (is_Some (store (main locked_world).2 !! filepath_of "a.frag")
   ↔ is_Some (store locked_world !! filepath_of "a.frag")).
Proof.
  apply (files_persist locked_world (main locked_world).2
           (Raise (PermissionError (filepath_of "locked.frag")))).
  by_eval.
Defined.



Lemma abort_without_loss_witness :
  store (main locked_world).2 !! filepath_of "locked.frag"
  = store locked_world !! filepath_of "locked.frag" ∨
  store (main locked_world).2 !! filepath_of "locked.frag"
  = normalized (filepath_of "locked.frag")
      <$> store locked_world !! filepath_of "locked.frag".
Proof.
  apply (abort_without_loss locked_world (main locked_world).2
           (PermissionError (filepath_of "locked.frag")));
    [by_eval | intros p H; discriminate H].
Defined.

Lemma aborted_console_witness :
  (dirs locked_world !! models_dir = None ∧
   stdout (main locked_world).2 = stdout locked_world ++ [startup_line]) ∨
  ∃ pre x post (entries : list (string * bool)),
    dirs locked_world !! models_dir = Some (pre ++ x :: post) ∧
    is_candidate x = true ∧
    entries.*1 = candidates pre ∧
    (stdout (main locked_world).2
     = stdout locked_world ++ [startup_line] ++ report entries ∨
     stdout (main locked_world).2
     = stdout locked_world ++ [startup_line] ++ report entries ++ [fix_line x]).
Proof.
  apply (aborted_console locked_world (main locked_world).2
           (PermissionError (filepath_of "locked.frag"))).
  by_eval.
Defined.

Lemma failed_write_not_repaired_witness :
  let p := filepath_of "big.frag" in
  let cut := File (take 4 (gzip_compress p (content full_disk_file))) true
                  (WriteFailsAfter 4) in
  ∃ w', process_entry "big.frag" full_disk_world = (Raise (NoSpaceError p), w') ∧
        store w' !! p = Some (NFile cut) ∧
        process_entry "big.frag" w'
        = (Ok tt, put_line (ok_line "big.frag") (log_access (OpenRead p) w')).
Proof.
  apply (failed_write_not_repaired "big.frag" full_disk_world full_disk_file 4);
    by_eval.
Defined.


Lemma candidate_by_last_five_witness :
  is_candidate ("mesh" +:+ ".FRAG") = true ↔ ".FRAG" = ".frag".
Proof. apply (candidate_by_last_five "mesh" ".FRAG"). reflexivity. Defined.

End MoreScenarios.
